(** * The connection registry of package [connection]

    A shallow embedding of [connection/connection.go]: the registry
    [MySqlConnection] with its two maps, and the methods
    [InitDataSourceConnection], [GetDB], [reconnect], [CloseConnection],
    [CloseAllConnections], [PrintAllExistingDb] and [GetDbConfig].

    The methods are embedded as state-passing functions over the registry
    and the world of the database library (gorm and database/sql), which
    the package only reaches through [gorm.Open], [db.DB()], the four pool
    setters, [Ping] and [Close].  Each method body is executed as a whole:
    the mutex and the interleaving of goroutines are outside this model.
    Console output ([log.Printf], [fmt.Printf]) is left out, except for the
    list that [PrintAllExistingDb] prints, which is its result here. *)

From Stdlib Require Import ZArith String.
From stdpp Require Import gmap strings list fin_maps.

Local Open Scope string_scope.

(** ** Values *)

(** [type DBConfig struct]: [int] and [time.Duration] fields are integers
    that the package only stores and hands on. *)
Record DBConfig : Type := mkDBConfig {
  DataSourceName : string;
  MaxOpen : Z;
  MaxIdle : Z;
  Lifetime : Z;
  IdleTime : Z
}.

(** The composite literal [DBConfig{}]. *)
Definition DBConfig_zero : DBConfig := mkDBConfig "" 0 0 0 0.

#[global] Instance DBConfig_eq_dec : EqDecision DBConfig.
Proof. solve_decision. Defined.

(** A [*gorm.DB] and a [*sql.DB] are pointers; they are represented by the
    number that identifies the object they point to.  A nil pointer is
    [None] in an [option]. *)
Abbreviation gorm_DB := nat (only parsing).
Abbreviation sql_DB := nat (only parsing).

(** Go's [error] values.  [External] is an error made by the database
    library; the other constructors are the [fmt.Errorf] calls of the
    package, one per format string, with the name and the wrapped cause.
    The nil error is [None] in an [option error]. *)
Inductive error : Type :=
| External (msg : string)
| InitOpenFailed (name : string) (cause : error)
    (* "failed to initialize database connection %q: %w" *)
| InitHandleFailed (name : string) (cause : error)
    (* "failed to retrieve database handle for '%q': %w" *)
| InitPingFailed (name : string) (cause : error)
    (* "failed to ping database '%q': %w" *)
| NotExist (name : string)
    (* "database connection '%q' does not exist" *)
| NoConfig (name : string)
    (* "no configuration found to reconnect database '%q'" *)
| RemoveFailed (name : string) (cause : error)
    (* "failed to remove connection '%q': %w" *)
| ReconnectFailed (name : string) (cause : error)
    (* "failed to reconnect to database '%q': %w" *)
| CloseHandleFailed (name : string) (cause : error)
    (* "error retrieving database handle for '%q': %v" *)
| CloseFailed (name : string) (cause : error).
    (* "error closing database connection '%q': %v" *)

#[global] Instance error_eq_dec : EqDecision error.
Proof. solve_decision. Defined.

(** [type MySqlConnection struct], without its mutex. *)
Record MySqlConnection : Type := mkMySqlConnection {
  connections : gmap string gorm_DB;
  configs : gmap string DBConfig
}.

(** [GetMySqlConnection]: the instance that [once.Do] builds on the first
    call, and that every call returns. *)
Definition GetMySqlConnection : MySqlConnection :=
  {| connections := ∅; configs := ∅ |}.

(** ** The database library *)

(** What the package calls in gorm and database/sql, as functions on the
    library's world [W].  A call that returns [(value, err)] gives
    [inl err] or [inr value]. *)
Class Driver (W : Type) : Type := {
  gorm_Open : string → W → (error + gorm_DB) * W;
  db_DB : gorm_DB → W → (error + sql_DB) * W;
  SetMaxOpenConns : sql_DB → Z → W → W;
  SetMaxIdleConns : sql_DB → Z → W → W;
  SetConnMaxLifetime : sql_DB → Z → W → W;
  SetConnMaxIdleTime : sql_DB → Z → W → W;
  Ping : sql_DB → W → option error * W;
  Close : sql_DB → W → option error * W
}.

(** ** The state monad of the methods *)

(** The registry [f] of the method receiver, and the library's world. *)
Definition state (W : Type) : Type := MySqlConnection * W.

Definition M (W A : Type) : Type := state W → A * state W.

Definition ret {W A} (a : A) : M W A := λ s, (a, s).
Definition bind {W A B} (c : M W A) (k : A → M W B) : M W B :=
  λ s, let '(a, s') := c s in k a s'.

Definition get_reg {W} : M W MySqlConnection := λ s, (s.1, s).
Definition modify_reg {W} (g : MySqlConnection → MySqlConnection) : M W unit :=
  λ s, (tt, (g s.1, s.2)).
(** A library call that returns a value, and one that returns nothing. *)
Definition call {W A} (op : W → A * W) : M W A :=
  λ s, let '(a, w') := op s.2 in (a, (s.1, w')).
Definition call_ {W} (op : W → W) : M W unit :=
  λ s, (tt, (s.1, op s.2)).

Notation "'do' x <- c ; k" := (bind c (λ x, k))
  (at level 10, x name, c at level 100, k at level 200,
   format "'[v' 'do'  x  <-  c ; '/' k ']'").

Section Methods.
Context {W : Type} `{!Driver W}.

(** The two map writes of the package. *)
Definition set_connection (name : string) (db : gorm_DB) (f : MySqlConnection) :=
  {| connections := <[name := db]> (connections f); configs := configs f |}.
Definition set_config (name : string) (config : DBConfig) (f : MySqlConnection) :=
  {| connections := connections f; configs := <[name := config]> (configs f) |}.
Definition delete_connection (name : string) (f : MySqlConnection) :=
  {| connections := delete name (connections f); configs := configs f |}.
Definition delete_config (name : string) (f : MySqlConnection) :=
  {| connections := connections f; configs := delete name (configs f) |}.

(** ** The methods *)

(** [func (f *MySqlConnection) InitDataSourceConnection(name, config) error] *)
Definition InitDataSourceConnection (name : string) (config : DBConfig)
  : M W (option error) :=
  do f <- get_reg;
  match connections f !! name with
  | Some _ => ret None
  | None =>
    do opened <- call (gorm_Open (DataSourceName config));
    match opened with
    | inl err => ret (Some (InitOpenFailed name err))
    | inr db =>
      do handle <- call (db_DB db);
      match handle with
      | inl err => ret (Some (InitHandleFailed name err))
      | inr sqlDB =>
        do _ <- call_ (SetMaxOpenConns sqlDB (MaxOpen config));
        do _ <- call_ (SetMaxIdleConns sqlDB (MaxIdle config));
        do _ <- call_ (SetConnMaxLifetime sqlDB (Lifetime config));
        do _ <- call_ (SetConnMaxIdleTime sqlDB (IdleTime config));
        do pinged <- call (Ping sqlDB);
        match pinged with
        | Some err => ret (Some (InitPingFailed name err))
        | None =>
          do _ <- modify_reg (set_connection name db);
          do _ <- modify_reg (set_config name config);
          ret None
        end
      end
    end
  end.

(** The health check of [GetDB]:
    [sqlDB, err := db.DB(); err != nil || sqlDB.Ping() != nil].
    [Ping] is only called when [db.DB()] gave a handle. *)
Definition unhealthy (db : gorm_DB) : M W bool :=
  do handle <- call (db_DB db);
  match handle with
  | inl _ => ret true
  | inr sqlDB =>
    do pinged <- call (Ping sqlDB);
    match pinged with
    | Some _ => ret true
    | None => ret false
    end
  end.

(** [func (f *MySqlConnection) CloseConnection(name string) error] *)
Definition CloseConnection (name : string) : M W (option error) :=
  do f <- get_reg;
  match connections f !! name with
  | None => ret (Some (NotExist name))
  | Some db =>
    do handle <- call (db_DB db);
    match handle with
    | inl err => ret (Some (CloseHandleFailed name err))
    | inr sqlDB =>
      do closed <- call (Close sqlDB);
      match closed with
      | Some err => ret (Some (CloseFailed name err))
      | None =>
        do _ <- modify_reg (delete_connection name);
        do _ <- modify_reg (delete_config name);
        ret None
      end
    end
  end.

(** [func (f *MySqlConnection) reconnect(name, config)], which returns a
    [*gorm.DB] and an [error].
    The last line returns [f.connections[name]], which is nil when the
    name has no entry. *)
Definition reconnect (name : string) (config : DBConfig)
  : M W (option gorm_DB * option error) :=
  do closed <- CloseConnection name;
  match closed with
  | Some err => ret (None, Some (RemoveFailed name err))
  | None =>
    do inited <- InitDataSourceConnection name config;
    match inited with
    | Some err => ret (None, Some (ReconnectFailed name err))
    | None =>
      do f <- get_reg;
      ret (connections f !! name, None)
    end
  end.

(** [func (f *MySqlConnection) GetDB(name string)], which returns a
    [*gorm.DB] and an [error]. *)
Definition GetDB (name : string) : M W (option gorm_DB * option error) :=
  do f <- get_reg;
  let found := connections f !! name in
  let config_found := configs f !! name in
  match found with
  | None => ret (None, Some (NotExist name))
  | Some db =>
    do bad <- unhealthy db;
    if bad then
      match config_found with
      | None => ret (None, Some (NoConfig name))
      | Some config => reconnect name config
      end
    else ret (Some db, None)
  end.

(** The body of the loop of [CloseAllConnections], for one entry. *)
Definition close_entry (entry : string * gorm_DB) : M W unit :=
  do handle <- call (db_DB entry.2);
  match handle with
  | inl _ => ret tt
  | inr sqlDB =>
    do _ <- call (Close sqlDB);
    ret tt
  end.

Fixpoint for_each {A} (body : A → M W unit) (entries : list A) : M W unit :=
  match entries with
  | [] => ret tt
  | entry :: rest =>
    do _ <- body entry;
    for_each body rest
  end.

(** [func (f *MySqlConnection) CloseAllConnections()].  Go visits the
    entries of a map in an order it does not specify: [visited] is the
    list of entries of [f.connections] in the order of this run. *)
Definition CloseAllConnections_in (visited : list (string * gorm_DB)) : M W unit :=
  do _ <- for_each close_entry visited;
  do _ <- modify_reg (λ f, {| connections := ∅; configs := configs f |});
  do _ <- modify_reg (λ f, {| connections := connections f; configs := ∅ |});
  ret tt.

(** One order [range] may take: the one of [map_to_list]. *)
Definition CloseAllConnections : M W unit :=
  λ s, CloseAllConnections_in (map_to_list (connections s.1)) s.

(** [func (f *MySqlConnection) PrintAllExistingDb()]: the result is the
    slice [connectionNames] that the method prints. *)
Fixpoint collect_names (visited : list (string * gorm_DB))
    (connectionNames : list string) : M W (list string) :=
  match visited with
  | [] => ret connectionNames
  | entry :: rest =>
    do handle <- call (db_DB entry.2);
    match handle with
    | inl _ => collect_names rest connectionNames
    | inr _ => collect_names rest (connectionNames ++ [entry.1])
    end
  end.

Definition PrintAllExistingDb_in (visited : list (string * gorm_DB))
  : M W (list string) :=
  collect_names visited [].

Definition PrintAllExistingDb : M W (list string) :=
  λ s, PrintAllExistingDb_in (map_to_list (connections s.1)) s.

(** [func (f *MySqlConnection) GetDbConfig(conName string) DBConfig].
    Reading a missing key of a Go map gives the zero value. *)
Definition GetDbConfig (conName : string) : M W DBConfig :=
  do f <- get_reg;
  let config := default DBConfig_zero (configs f !! conName) in
  if decide (config = DBConfig_zero) then ret DBConfig_zero
  else ret config.

End Methods.

(** ** How the library answers *)

Section Answers.
Context {W : Type} `{!Driver W}.

Implicit Types (s : state W) (w : W) (f : MySqlConnection).
Implicit Types (name : string) (config : DBConfig) (db : gorm_DB).

(** The world after the four pool setters of [InitDataSourceConnection]. *)
Definition pool_settings (sqlDB : sql_DB) config w : W :=
  SetConnMaxIdleTime sqlDB (IdleTime config)
    (SetConnMaxLifetime sqlDB (Lifetime config)
      (SetMaxIdleConns sqlDB (MaxIdle config)
        (SetMaxOpenConns sqlDB (MaxOpen config) w))).

(** From world [w], opening [config] fails: at [gorm.Open], at [db.DB()]
    or at the first [Ping]. *)
Inductive init_fails config w : Prop :=
| open_fails err w1 :
    gorm_Open (DataSourceName config) w = (inl err, w1) →
    init_fails config w
| handle_fails db w1 err w2 :
    gorm_Open (DataSourceName config) w = (inr db, w1) →
    db_DB db w1 = (inl err, w2) →
    init_fails config w
| ping_fails db w1 sqlDB w2 err w3 :
    gorm_Open (DataSourceName config) w = (inr db, w1) →
    db_DB db w1 = (inr sqlDB, w2) →
    Ping sqlDB (pool_settings sqlDB config w2) = (Some err, w3) →
    init_fails config w.

(** From world [w], opening [config] gives handle [db] and world [w']. *)
Definition init_succeeds config w db w' : Prop :=
  ∃ w1 sqlDB w2,
    gorm_Open (DataSourceName config) w = (inr db, w1) ∧
    db_DB db w1 = (inr sqlDB, w2) ∧
    Ping sqlDB (pool_settings sqlDB config w2) = (None, w').

(** From world [w], the liveness probe of [db] fails and leaves [w']:
    [db.DB()] gives an error, or [Ping] does. *)
Inductive probe_fails db w : W → Prop :=
| probe_no_handle err w1 :
    db_DB db w = (inl err, w1) → probe_fails db w w1
| probe_no_ping sqlDB w1 err w2 :
    db_DB db w = (inr sqlDB, w1) →
    Ping sqlDB w1 = (Some err, w2) →
    probe_fails db w w2.

(** From world [w], closing [db] succeeds and leaves [w']: [db.DB()]
    gives the handle and [Close] gives no error. *)
Definition close_succeeds db w w' : Prop :=
  ∃ sqlDB w1, db_DB db w = (inr sqlDB, w1) ∧ Close sqlDB w1 = (None, w').

(** The entries of [connections] under one name. *)
Definition entries_for name f : list (string * gorm_DB) :=
  filter (λ entry, entry.1 = name) (map_to_list (connections f)).

End Answers.

(** ** Histories of calls *)

(** A call of a method of the registry, or a change of the library's world
    that the package does not make ([Outside]: the server goes down, a
    caller closes a [*sql.DB] it was handed). *)
Inductive operation (W : Type) : Type :=
| Init (name : string) (config : DBConfig)
| Get (name : string)
| Reconnect (name : string) (config : DBConfig)
| CloseOne (name : string)
| CloseAll (visited : list (string * gorm_DB))
| PrintAll (visited : list (string * gorm_DB))
| GetConfig (name : string)
| Outside (w : W).

Arguments Init {W} name config.
Arguments Get {W} name.
Arguments Reconnect {W} name config.
Arguments CloseOne {W} name.
Arguments CloseAll {W} visited.
Arguments PrintAll {W} visited.
Arguments GetConfig {W} name.
Arguments Outside {W} w.

Section Histories.
Context {W : Type} `{!Driver W}.

(** The state after one operation. *)
Definition exec (o : operation W) (s : state W) : state W :=
  match o with
  | Init name config => (InitDataSourceConnection name config s).2
  | Get name => (GetDB name s).2
  | Reconnect name config => (reconnect name config s).2
  | CloseOne name => (CloseConnection name s).2
  | CloseAll visited => (CloseAllConnections_in visited s).2
  | PrintAll visited => (PrintAllExistingDb_in visited s).2
  | GetConfig name => (GetDbConfig name s).2
  | Outside w => (s.1, w)
  end.

(** A loop over [f.connections] visits the entries of the map, each once. *)
Definition allowed (o : operation W) (s : state W) : Prop :=
  match o with
  | CloseAll visited | PrintAll visited =>
      visited ≡ₚ map_to_list (connections s.1)
  | _ => True
  end.

(** [reachable history s]: the process started with the empty registry of
    [GetMySqlConnection] and made the calls of [history], the latest
    first; [s] is the state now. *)
Inductive reachable : list (operation W) → state W → Prop :=
| reachable_start (w : W) : reachable [] (GetMySqlConnection, w)
| reachable_step (o : operation W) (history : list (operation W)) (s : state W) :
    reachable history s → allowed o s → reachable (o :: history) (exec o s).

(** No call of the history initializes [name]. *)
Definition never_initialized (name : string) (history : list (operation W)) : Prop :=
  ∀ config, Init name config ∉ history.

(** [name] is a key of neither map. *)
Definition absent (name : string) (f : MySqlConnection) : Prop :=
  connections f !! name = None ∧ configs f !! name = None.

(** Every key of [connections] is a key of [configs]. *)
Definition registry_invariant (f : MySqlConnection) : Prop :=
  ∀ name, is_Some (connections f !! name) → is_Some (configs f !! name).

End Histories.

(** ** A caller of the registry *)

Section Callers.
Context {W : Type} `{!Driver W}.

(** [time.Minute], in nanoseconds. *)
Definition Minute : Z := 60 * 1000 * 1000 * 1000.

(** The configuration that [initMySql] of [connection_test.go] and [main]
    build; [getenv] is what [os.Getenv] gave for the connection string. *)
Definition mySqlConfig (getenv : string) : DBConfig :=
  {| DataSourceName := getenv;
     MaxOpen := 12;
     MaxIdle := 10;
     Lifetime := 5 * Minute;
     IdleTime := 1 * Minute |}.

(** [func initMySql()], which returns a [*gorm.DB] and an [error]: the
    error of the initialization is printed and dropped, then the handle
    is fetched.  [main] starts with the same two calls. *)
Definition initMySql (getenv : string) : M W (option gorm_DB * option error) :=
  do err <- InitDataSourceConnection "mysql" (mySqlConfig getenv);
  GetDB "mysql".

(** From world [w], the liveness probe of [db] passes and leaves [w']. *)
Definition probe_succeeds (db : gorm_DB) (w w' : W) : Prop :=
  ∃ sqlDB w1, db_DB db w = (inr sqlDB, w1) ∧ Ping sqlDB w1 = (None, w').

(** The two registries have the same entries under every name but [name]. *)
Definition same_elsewhere (name : string) (f f' : MySqlConnection) : Prop :=
  ∀ other, other ≠ name →
    connections f' !! other = connections f !! other ∧
    configs f' !! other = configs f !! other.

End Callers.

(** ** A database library for examples *)

(** One server and the handles opened on it.  [gorm.Open] gives the next
    handle when the server is up; a handle has the same number as its
    [*sql.DB]; [Ping] fails on a closed handle and when the server is down;
    [Close] closes a handle, and closing twice is no error.  The handles
    of [no_pool] have no [*sql.DB] ([db.DB()] fails on them) and those of
    [close_fails] give an error when closed. *)
Module Sim.

Record world : Type := mkWorld {
  server_up : bool;
  next_handle : nat;
  closed : gset nat;
  no_pool : gset nat;
  close_fails : gset nat;
  limits : gmap nat (Z * Z * Z * Z)
}.

Definition limits_of (w : world) (h : nat) : Z * Z * Z * Z :=
  default (0, 0, 0, 0)%Z (limits w !! h).

Definition set_limits (h : nat) (l : Z * Z * Z * Z) (w : world) : world :=
  mkWorld (server_up w) (next_handle w) (closed w) (no_pool w)
          (close_fails w) (<[h := l]> (limits w)).

Definition open (dsn : string) (w : world) : (error + nat) * world :=
  if server_up w then
    (inr (next_handle w),
     mkWorld (server_up w) (S (next_handle w)) (closed w) (no_pool w)
             (close_fails w) (limits w))
  else (inl (External "dial tcp: connection refused"), w).

Definition pool (db : nat) (w : world) : (error + nat) * world :=
  if decide (db ∈ no_pool w) then (inl (External "invalid db"), w)
  else (inr db, w).

Definition ping (h : nat) (w : world) : option error * world :=
  if decide (h ∈ closed w) then (Some (External "sql: database is closed"), w)
  else if server_up w then (None, w)
  else (Some (External "dial tcp: connection refused"), w).

Definition close (h : nat) (w : world) : option error * world :=
  if decide (h ∈ close_fails w) then (Some (External "close failed"), w)
  else
    (None,
     mkWorld (server_up w) (next_handle w) ({[h]} ∪ closed w) (no_pool w)
             (close_fails w) (limits w)).

#[global] Instance driver : Driver world := {|
  gorm_Open := open;
  db_DB := pool;
  SetMaxOpenConns h n w :=
    let '(_, b, c, d) := limits_of w h in set_limits h (n, b, c, d) w;
  SetMaxIdleConns h n w :=
    let '(a, _, c, d) := limits_of w h in set_limits h (a, n, c, d) w;
  SetConnMaxLifetime h n w :=
    let '(a, b, _, d) := limits_of w h in set_limits h (a, b, n, d) w;
  SetConnMaxIdleTime h n w :=
    let '(a, b, c, _) := limits_of w h in set_limits h (a, b, c, n) w;
  Ping := ping;
  Close := close
|}.

(** A server that is up, with no handle opened yet. *)
Definition fresh_world : world := mkWorld true 0 ∅ ∅ ∅ ∅.

(** The server goes down. *)
Definition server_down (w : world) : world :=
  mkWorld false (next_handle w) (closed w) (no_pool w) (close_fails w) (limits w).

(** Somebody closes handle [h] behind the registry's back. *)
Definition closed_outside (h : nat) (w : world) : world := (close h w).2.

(** The configuration of the package's test. *)
Definition testConfig : DBConfig :=
  mkDBConfig "user:password@tcp(localhost:3306)/dbname" 5 2 60000000000 1800000000000.

Definition otherConfig : DBConfig :=
  mkDBConfig "user:password@tcp(localhost:3306)/other" 12 10 300000000000 60000000000.

(** The state after [InitDataSourceConnection("test_db", testConfig)] on
    the empty registry. *)
Definition initialized : state world :=
  (InitDataSourceConnection "test_db" testConfig (GetMySqlConnection, fresh_world)).2.

(** The same registry after somebody closed its handle. *)
Definition closed_behind : state world :=
  (initialized.1, closed_outside 0 initialized.2).

(** The same registry after the server went down. *)
Definition down : state world :=
  (initialized.1, server_down initialized.2).

(** The server is down and the handle of the registry cannot be closed. *)
Definition stuck : state world :=
  (initialized.1,
   mkWorld false 1 ∅ ∅ {[0]} (limits initialized.2)).

(** The handle of the registry has lost its [*sql.DB]. *)
Definition no_handle : state world :=
  (initialized.1,
   mkWorld true 1 ∅ {[0]} ∅ (limits initialized.2)).

(** A registry built by hand, with a connection and no configuration,
    while the server is down. *)
Definition without_config : state world :=
  ({| connections := connections initialized.1; configs := ∅ |},
   server_down initialized.2).

(** A registry with two names. *)
Definition two_connections : state world :=
  (InitDataSourceConnection "other_db" otherConfig initialized).2.

(** The same two names, when the first handle cannot be closed. *)
Definition first_stuck : state world :=
  (two_connections.1,
   mkWorld true 2 ∅ ∅ {[0]} (limits two_connections.2)).

(** A history of calls: the name is initialized, the server goes down,
    the name is closed. *)
Definition example_history : list (operation world) :=
  [CloseOne "test_db"; Outside (server_down initialized.2);
   Init "test_db" testConfig].

End Sim.

(** * Properties *)

Section Properties.
Context {W : Type} `{!Driver W}.

Implicit Types (s : state W) (w : W) (f : MySqlConnection).
Implicit Types (name : string) (config : DBConfig) (db : gorm_DB).

(** ** Tactics *)

Ltac unfold_monad :=
  unfold bind, ret, get_reg, modify_reg, call, call_ in *; simpl in *.

(** ** Equations of the methods *)

Lemma Init_existing name config s db :
  connections s.1 !! name = Some db →
  InitDataSourceConnection name config s = (None, s).
Proof.
  intros Hdb. unfold InitDataSourceConnection. unfold_monad.
  by rewrite Hdb.
Qed.

Lemma Init_fresh_fails name config s :
  connections s.1 !! name = None →
  init_fails config s.2 →
  ∃ err w', InitDataSourceConnection name config s = (Some err, (s.1, w')).
Proof.
  intros Hnone Hfail. unfold InitDataSourceConnection. unfold_monad.
  rewrite Hnone.
  destruct Hfail as [err w1 Ho | db w1 err w2 Ho Hh | db w1 sq w2 err w3 Ho Hh Hp].
  - rewrite Ho. simpl. eauto.
  - rewrite Ho. simpl. rewrite Hh. simpl. eauto.
  - rewrite Ho. simpl. rewrite Hh. simpl.
    unfold pool_settings in Hp. rewrite Hp. simpl. eauto.
Qed.

Lemma Init_fresh_succeeds name config s db w' :
  connections s.1 !! name = None →
  init_succeeds config s.2 db w' →
  InitDataSourceConnection name config s =
    (None, (set_config name config (set_connection name db s.1), w')).
Proof.
  intros Hnone (w1 & sq & w2 & Ho & Hh & Hp).
  unfold InitDataSourceConnection. unfold_monad.
  rewrite Hnone, Ho. simpl. rewrite Hh. simpl.
  unfold pool_settings in Hp. rewrite Hp. done.
Qed.

(** From a world, opening a configuration fails or succeeds. *)
Lemma init_fails_or_succeeds config w :
  init_fails config w ∨ ∃ db w', init_succeeds config w db w'.
Proof.
  destruct (gorm_Open (DataSourceName config) w) as [[err|db] w1] eqn:Ho.
  { left. eapply open_fails; eauto. }
  destruct (db_DB db w1) as [[err|sq] w2] eqn:Hh.
  { left. eapply handle_fails; eauto. }
  destruct (Ping sq (pool_settings sq config w2)) as [[err|] w3] eqn:Hp.
  { left. eapply ping_fails; eauto. }
  right. exists db, w3, w1, sq, w2. done.
Qed.

(** The outcomes of [InitDataSourceConnection]. *)
Lemma Init_outcome name config s :
  (is_Some (connections s.1 !! name) ∧
     InitDataSourceConnection name config s = (None, s)) ∨
  (connections s.1 !! name = None ∧ init_fails config s.2 ∧
     ∃ err w', InitDataSourceConnection name config s = (Some err, (s.1, w'))) ∨
  (connections s.1 !! name = None ∧
     ∃ db w', init_succeeds config s.2 db w' ∧
       InitDataSourceConnection name config s =
         (None, (set_config name config (set_connection name db s.1), w'))).
Proof.
  destruct (connections s.1 !! name) as [db|] eqn:Hdb.
  { left. split; [eauto | by eapply Init_existing]. }
  right. destruct (init_fails_or_succeeds config s.2) as [Hf | (db & w' & Hs)].
  - left. eauto using Init_fresh_fails.
  - right. split; [done|]. exists db, w'. eauto using Init_fresh_succeeds.
Qed.

Lemma unhealthy_registry db s : (unhealthy db s).2.1 = s.1.
Proof.
  unfold unhealthy. unfold_monad.
  destruct (db_DB db s.2) as [[err|sq] w1]; simpl; [done|].
  by destruct (Ping sq w1) as [[err|] w2].
Qed.

Lemma unhealthy_probe_fails db s w' :
  probe_fails db s.2 w' → unhealthy db s = (true, (s.1, w')).
Proof.
  intros [err w1 Hh | sq w1 err w2 Hh Hp]; unfold unhealthy; unfold_monad.
  - by rewrite Hh.
  - rewrite Hh. simpl. by rewrite Hp.
Qed.

Lemma unhealthy_true db s :
  (unhealthy db s).1 = true → probe_fails db s.2 (unhealthy db s).2.2.
Proof.
  unfold unhealthy. unfold_monad.
  destruct (db_DB db s.2) as [[err|sq] w1] eqn:Hh; simpl.
  { intros _. by eapply probe_no_handle. }
  destruct (Ping sq w1) as [[err|] w2] eqn:Hp; simpl; [|done].
  intros _. by eapply probe_no_ping.
Qed.

Lemma Close_absent name s :
  connections s.1 !! name = None →
  CloseConnection name s = (Some (NotExist name), s).
Proof.
  intros Hnone. unfold CloseConnection. unfold_monad. by rewrite Hnone.
Qed.

(** The outcomes of [CloseConnection]: an error and the registry as it
    was, or no error and the name deleted from both maps. *)
Lemma Close_outcome name s :
  (∃ err w', CloseConnection name s = (Some err, (s.1, w'))) ∨
  (∃ db w', connections s.1 !! name = Some db ∧
     CloseConnection name s =
       (None, (delete_config name (delete_connection name s.1), w'))).
Proof.
  unfold CloseConnection. unfold_monad.
  destruct (connections s.1 !! name) as [db|] eqn:Hdb; [|left; destruct s; eauto].
  destruct (db_DB db s.2) as [[err|sq] w1] eqn:Hh; simpl; [left; eauto|].
  destruct (Close sq w1) as [[err|] w2] eqn:Hc; simpl; [left; eauto|].
  right. eauto.
Qed.

Lemma Close_ok_registry name s s' :
  CloseConnection name s = (None, s') →
  s'.1 = delete_config name (delete_connection name s.1).
Proof.
  intros Hc. destruct (Close_outcome name s) as [(e & w' & He) | (db & w' & _ & Hok)].
  - congruence.
  - rewrite Hok in Hc. by inversion Hc.
Qed.

Lemma Close_error_registry name s err s' :
  CloseConnection name s = (Some err, s') → s'.1 = s.1.
Proof.
  intros Hc. destruct (Close_outcome name s) as [(e & w' & He) | (db & w' & _ & Hok)].
  - rewrite He in Hc. by inversion Hc.
  - congruence.
Qed.

Lemma Init_error_registry name config s err s' :
  InitDataSourceConnection name config s = (Some err, s') → s'.1 = s.1.
Proof.
  intros Hi.
  destruct (Init_outcome name config s)
    as [[_ He] | [(_ & _ & e & w' & He) | (_ & db & w' & _ & He)]];
    rewrite He in Hi; by inversion Hi.
Qed.

(** [reconnect] unfolded along the answers of its two steps. *)
Lemma reconnect_close_error name config s err s1 :
  CloseConnection name s = (Some err, s1) →
  reconnect name config s = ((None, Some (RemoveFailed name err)), s1).
Proof. intros Hc. unfold reconnect. unfold_monad. by rewrite Hc. Qed.

Lemma reconnect_init_error name config s s1 err s2 :
  CloseConnection name s = (None, s1) →
  InitDataSourceConnection name config s1 = (Some err, s2) →
  reconnect name config s = ((None, Some (ReconnectFailed name err)), s2).
Proof.
  intros Hc Hi. unfold reconnect. unfold_monad. rewrite Hc. simpl. by rewrite Hi.
Qed.

Lemma reconnect_ok name config s s1 s2 :
  CloseConnection name s = (None, s1) →
  InitDataSourceConnection name config s1 = (None, s2) →
  reconnect name config s = ((connections s2.1 !! name, None), s2).
Proof.
  intros Hc Hi. unfold reconnect. unfold_monad. rewrite Hc. simpl. by rewrite Hi.
Qed.

(** [GetDB] unfolded along the lookup and the probe. *)
Lemma GetDB_absent name s :
  connections s.1 !! name = None →
  GetDB name s = ((None, Some (NotExist name)), s).
Proof. intros Hnone. unfold GetDB. unfold_monad. by rewrite Hnone. Qed.

Lemma GetDB_healthy name db s :
  connections s.1 !! name = Some db →
  (unhealthy db s).1 = false →
  GetDB name s = ((Some db, None), (unhealthy db s).2).
Proof.
  intros Hdb Hok. unfold GetDB. unfold_monad. rewrite Hdb.
  destruct (unhealthy db s) as [bad s1]. simpl in *. by subst.
Qed.

Lemma GetDB_no_config name db s :
  connections s.1 !! name = Some db →
  (unhealthy db s).1 = true →
  configs s.1 !! name = None →
  GetDB name s = ((None, Some (NoConfig name)), (unhealthy db s).2).
Proof.
  intros Hdb Hbad Hcfg. unfold GetDB. unfold_monad. rewrite Hdb, Hcfg.
  destruct (unhealthy db s) as [bad s1]. simpl in *. by subst.
Qed.

Lemma GetDB_reconnects name db config s :
  connections s.1 !! name = Some db →
  (unhealthy db s).1 = true →
  configs s.1 !! name = Some config →
  GetDB name s = reconnect name config (unhealthy db s).2.
Proof.
  intros Hdb Hbad Hcfg. unfold GetDB. unfold_monad. rewrite Hdb, Hcfg.
  destruct (unhealthy db s) as [bad s1]. simpl in *. by subst.
Qed.

(** ** Entries under one name *)

Lemma filter_key_absent (entries : list (string * gorm_DB)) name :
  name ∉ entries.*1 → filter (λ entry, entry.1 = name) entries = [].
Proof.
  induction entries as [|[k v] rest IH]; [done|].
  rewrite fmap_cons, not_elem_of_cons. simpl. intros [Hne Hrest].
  rewrite filter_cons_False by (simpl; congruence). auto.
Qed.

Lemma filter_key_unique (entries : list (string * gorm_DB)) name db :
  NoDup entries.*1 → (name, db) ∈ entries →
  filter (λ entry, entry.1 = name) entries = [(name, db)].
Proof.
  induction entries as [|[k v] rest IH]; [by intros _ ?%elem_of_nil|].
  rewrite fmap_cons, NoDup_cons. simpl. intros [Hk Hnd] Hin.
  apply elem_of_cons in Hin as [Heq | Hin].
  - inversion Heq; subst k v.
    rewrite filter_cons_True by done. by rewrite filter_key_absent.
  - assert (k ≠ name).
    { intros ->. apply Hk. by apply (list_elem_of_fmap_2 fst) in Hin. }
    rewrite filter_cons_False by done. auto.
Qed.

Lemma entries_for_present name db f :
  connections f !! name = Some db → entries_for name f = [(name, db)].
Proof.
  intros Hdb. unfold entries_for. apply filter_key_unique.
  - apply NoDup_fst_map_to_list.
  - by apply elem_of_map_to_list.
Qed.

(** ** Initialization *)

(** C2. [InitDataSourceConnection] on a name that [connections] already
    has returns no error, and afterwards [connections] has one entry
    under that name, the one it had, and as many entries as before. *)
Theorem init_idempotent name config s db :
  connections s.1 !! name = Some db →
  (InitDataSourceConnection name config s).1 = None ∧
  entries_for name (InitDataSourceConnection name config s).2.1 = [(name, db)] ∧
  size (connections (InitDataSourceConnection name config s).2.1) =
    size (connections s.1).
Proof.
  intros Hdb. rewrite (Init_existing name config s db Hdb). simpl.
  split_and!; [done | by apply entries_for_present | done].
Qed.

(** C3. [InitDataSourceConnection] on a name that is not registered, when
    [gorm.Open] fails, or [db.DB()] fails, or the first [Ping] fails,
    returns an error and leaves the registry, both maps, as it was. *)
Theorem init_failure_leaves_registry name config s :
  connections s.1 !! name = None →
  init_fails config s.2 →
  is_Some (InitDataSourceConnection name config s).1 ∧
  (InitDataSourceConnection name config s).2.1 = s.1.
Proof.
  intros Hnone Hfail.
  destruct (Init_fresh_fails name config s Hnone Hfail) as (err & w' & ->).
  simpl. eauto.
Qed.

(** C10. [InitDataSourceConnection] on a name that [connections] already
    has, with any configuration, changes nothing: the handle and the
    configuration stored under the name stay, and so does every other
    entry of both maps; the library is not called. *)
Theorem duplicate_init_discards_config name config2 s db :
  connections s.1 !! name = Some db →
  (InitDataSourceConnection name config2 s).2 = s ∧
  connections (InitDataSourceConnection name config2 s).2.1 !! name = Some db ∧
  configs (InitDataSourceConnection name config2 s).2.1 !! name =
    configs s.1 !! name ∧
  ∀ other,
    connections (InitDataSourceConnection name config2 s).2.1 !! other =
      connections s.1 !! other ∧
    configs (InitDataSourceConnection name config2 s).2.1 !! other =
      configs s.1 !! other.
Proof.
  intros Hdb. rewrite (Init_existing name config2 s db Hdb). simpl. done.
Qed.

(** ** Lookup *)

(** C4. For a name that [connections] does not have, [GetDB] returns a nil
    handle and the "does not exist" error, [CloseConnection] returns the
    "does not exist" error, and neither changes the state. *)
Theorem not_found_contract name s :
  connections s.1 !! name = None →
  GetDB name s = ((None, Some (NotExist name)), s) ∧
  CloseConnection name s = (Some (NotExist name), s).
Proof. intros Hnone. split; [by apply GetDB_absent | by apply Close_absent]. Qed.

(** C5. For a name that [connections] has, whose handle fails the probe,
    and for which [configs] has no entry, [GetDB] returns a nil handle and
    the "no configuration found to reconnect" error; the registry is as it
    was and the library has only seen the calls of the probe. *)
Theorem get_without_config name db s w' :
  connections s.1 !! name = Some db →
  probe_fails db s.2 w' →
  configs s.1 !! name = None →
  GetDB name s = ((None, Some (NoConfig name)), (s.1, w')).
Proof.
  intros Hdb Hprobe Hcfg.
  pose proof (unhealthy_probe_fails db s w' Hprobe) as Hbad.
  rewrite (GetDB_no_config name db s Hdb) by (by rewrite ?Hbad).
  by rewrite Hbad.
Qed.

(** ** Reconnection *)

Lemma Close_succeeds name db s w' :
  connections s.1 !! name = Some db →
  close_succeeds db s.2 w' →
  CloseConnection name s =
    (None, (delete_config name (delete_connection name s.1), w')).
Proof.
  intros Hdb (sq & w1 & Hh & Hc). unfold CloseConnection. unfold_monad.
  rewrite Hdb, Hh. simpl. by rewrite Hc.
Qed.

(** C1, amended. For a name that [connections] has, whose handle fails the
    probe, and for which [configs] records [config]: when closing the old
    handle succeeds and opening [config] again succeeds, [GetDB] returns the
    handle just opened and no error; afterwards the name maps to that
    handle and to [config], and the other entries are as they were. *)
Theorem get_reconnects name db config s w1 w2 fresh w3 :
  connections s.1 !! name = Some db →
  configs s.1 !! name = Some config →
  probe_fails db s.2 w1 →
  close_succeeds db w1 w2 →
  init_succeeds config w2 fresh w3 →
  GetDB name s =
    ((Some fresh, None),
     ({| connections := <[name := fresh]> (connections s.1);
         configs := configs s.1 |}, w3)).
Proof.
  intros Hdb Hcfg Hprobe Hclose Hinit.
  pose proof (unhealthy_probe_fails db s w1 Hprobe) as Hbad.
  rewrite (GetDB_reconnects name db config s Hdb) by (by rewrite ?Hbad).
  rewrite Hbad. simpl.
  pose proof (Close_succeeds name db (s.1, w1) w2 Hdb Hclose) as Hc.
  set (s2 := (delete_config name (delete_connection name s.1), w2)) in Hc.
  assert (connections s2.1 !! name = None) as Hgone by apply lookup_delete_eq.
  pose proof (Init_fresh_succeeds name config s2 fresh w3 Hgone Hinit) as Hi.
  rewrite (reconnect_ok name config _ _ _ Hc Hi). simpl.
  unfold set_config, set_connection, delete_config, delete_connection. simpl.
  rewrite lookup_insert_eq, !insert_delete_eq.
  by rewrite (insert_id (configs s.1) name config Hcfg).
Qed.

(** C6, amended. [reconnect] hands the error of its close step or of its
    re-initialize step to [GetDB], which returns it.  When the close step
    fails the registry is as it was; when the close step succeeds and the
    re-initialize step fails, the name is in neither map afterwards. *)
Theorem reconnect_failure name config s :
  (∀ db s0, connections s0.1 !! name = Some db →
     configs s0.1 !! name = Some config →
     unhealthy db s0 = (true, s) →
     GetDB name s0 = reconnect name config s) ∧
  (∀ err s1, CloseConnection name s = (Some err, s1) →
     reconnect name config s = ((None, Some (RemoveFailed name err)), s1) ∧
     s1.1 = s.1) ∧
  (∀ s1 err s2, CloseConnection name s = (None, s1) →
     InitDataSourceConnection name config s1 = (Some err, s2) →
     reconnect name config s = ((None, Some (ReconnectFailed name err)), s2) ∧
     connections s2.1 !! name = None ∧
     configs s2.1 !! name = None).
Proof.
  split_and!.
  - intros db s0 Hdb Hcfg Hbad.
    rewrite (GetDB_reconnects name db config s0 Hdb) by (by rewrite ?Hbad).
    by rewrite Hbad.
  - intros err s1 Hc. split; [by apply reconnect_close_error|].
    by eapply Close_error_registry.
  - intros s1 err s2 Hc Hi. split; [by eapply reconnect_init_error|].
    rewrite (Init_error_registry _ _ _ _ _ Hi), (Close_ok_registry _ _ _ Hc).
    simpl. by rewrite !lookup_delete_eq.
Qed.

(** ** Closing everything *)

Lemma close_entry_registry entry s : (close_entry entry s).2.1 = s.1.
Proof.
  unfold close_entry. unfold_monad.
  destruct (db_DB entry.2 s.2) as [[err|sq] w1]; simpl; [done|].
  by destruct (Close sq w1).
Qed.

Lemma for_each_close_registry visited s :
  (for_each close_entry visited s).2.1 = s.1.
Proof.
  revert s. induction visited as [|entry rest IH]; intros s; [done|].
  simpl. unfold bind.
  destruct (close_entry entry s) as [[] s1] eqn:He.
  rewrite IH. by rewrite <- (close_entry_registry entry s), He.
Qed.

Lemma CloseAll_registry visited s :
  (CloseAllConnections_in visited s).2.1 = GetMySqlConnection.
Proof.
  unfold CloseAllConnections_in. unfold_monad.
  by destruct (for_each close_entry visited s) as [[] s1].
Qed.

(** C7. After [CloseAllConnections], in whatever order the loop visited the
    entries and whatever the library answered in it, both maps are empty;
    hence [GetDB] returns the "does not exist" error for every name and
    [PrintAllExistingDb] lists no name. *)
Theorem close_all_drains visited s :
  visited ≡ₚ map_to_list (connections s.1) →
  let s' := (CloseAllConnections_in visited s).2 in
  connections s'.1 = ∅ ∧ configs s'.1 = ∅ ∧
  (∀ name, GetDB name s' = ((None, Some (NotExist name)), s')) ∧
  (∀ visited', visited' ≡ₚ map_to_list (connections s'.1) →
     PrintAllExistingDb_in visited' s' = ([], s')).
Proof.
  intros _ s'.
  assert (s'.1 = GetMySqlConnection) as Hreg by apply CloseAll_registry.
  split_and!.
  - by rewrite Hreg.
  - by rewrite Hreg.
  - intros name. apply GetDB_absent. by rewrite Hreg.
  - intros visited'. rewrite Hreg. simpl. rewrite map_to_list_empty.
    intros ->%Permutation_nil_r. done.
Qed.

(** ** What a method does to the registry *)

(** The registry after the two deletions of [CloseConnection], and after
    the two writes of [InitDataSourceConnection]. *)
Abbreviation removed name f := (delete_config name (delete_connection name f)).
Abbreviation stored name db config f :=
  (set_config name config (set_connection name db f)).

Lemma Init_registry name config s :
  (InitDataSourceConnection name config s).2.1 = s.1 ∨
  connections s.1 !! name = None ∧
    ∃ db, (InitDataSourceConnection name config s).2.1 = stored name db config s.1.
Proof.
  destruct (Init_outcome name config s)
    as [[_ He] | [(_ & _ & e & w' & He) | (Hnone & db & w' & _ & He)]];
    rewrite He; simpl; eauto.
Qed.

Lemma Close_registry name s :
  (CloseConnection name s).2.1 = s.1 ∨
  is_Some (connections s.1 !! name) ∧
    (CloseConnection name s).2.1 = removed name s.1.
Proof.
  destruct (Close_outcome name s) as [(e & w' & He) | (db & w' & Hdb & He)];
    rewrite He; simpl; eauto.
Qed.

Lemma reconnect_registry name config s :
  (reconnect name config s).2.1 = s.1 ∨
  is_Some (connections s.1 !! name) ∧
    ((reconnect name config s).2.1 = removed name s.1 ∨
     ∃ db, (reconnect name config s).2.1 = stored name db config (removed name s.1)).
Proof.
  destruct (CloseConnection name s) as [[err|] s1] eqn:Hc.
  { left. rewrite (reconnect_close_error _ _ _ _ _ Hc). simpl.
    by eapply Close_error_registry. }
  right. pose proof (Close_ok_registry _ _ _ Hc) as Hs1. split.
  { destruct (Close_registry name s) as [Hsame | [? _]]; [|done].
    destruct (Close_outcome name s) as [(e & w' & He) | (db & w' & Hdb & _)];
      [congruence | eauto]. }
  destruct (InitDataSourceConnection name config s1) as [[err|] s2] eqn:Hi.
  { left. rewrite (reconnect_init_error _ _ _ _ _ _ Hc Hi). simpl.
    by rewrite (Init_error_registry _ _ _ _ _ Hi). }
  rewrite (reconnect_ok _ _ _ _ _ Hc Hi). simpl.
  destruct (Init_registry name config s1) as [Hsame | [_ [db Hst]]];
    rewrite Hi in *; simpl in *.
  - left. congruence.
  - right. exists db. congruence.
Qed.

Lemma GetDB_registry name s :
  (GetDB name s).2.1 = s.1 ∨
  is_Some (connections s.1 !! name) ∧
    ∃ config, configs s.1 !! name = Some config ∧
      ((GetDB name s).2.1 = removed name s.1 ∨
       ∃ db, (GetDB name s).2.1 = stored name db config (removed name s.1)).
Proof.
  destruct (connections s.1 !! name) as [db|] eqn:Hdb;
    [|left; by rewrite GetDB_absent].
  pose proof (unhealthy_registry db s) as Hreg.
  destruct (unhealthy db s) as [[] s1] eqn:Hbad; simpl in Hreg.
  2:{ left. rewrite (GetDB_healthy name db) by (by rewrite ?Hbad).
      by rewrite Hbad. }
  destruct (configs s.1 !! name) as [config|] eqn:Hcfg.
  2:{ left. rewrite (GetDB_no_config name db) by (by rewrite ?Hbad).
      by rewrite Hbad. }
  rewrite (GetDB_reconnects name db config) by (by rewrite ?Hbad).
  rewrite Hbad. simpl.
  destruct (reconnect_registry name config s1) as [Hsame | [_ Hre]].
  - left. congruence.
  - right. split; [done|]. exists config. split; [done|]. by rewrite <- Hreg.
Qed.

Lemma collect_names_registry visited names s :
  (collect_names visited names s).2.1 = s.1.
Proof.
  revert names s. induction visited as [|entry rest IH]; intros names s; [done|].
  simpl. unfold_monad.
  destruct (db_DB entry.2 s.2) as [[err|sq] w1]; simpl; by rewrite IH.
Qed.

Lemma GetDbConfig_eq name s :
  GetDbConfig name s = (default DBConfig_zero (configs s.1 !! name), s).
Proof.
  unfold GetDbConfig. unfold_monad. case_decide as Hzero; [|done].
  by rewrite Hzero.
Qed.

(** ** The invariant *)

Lemma invariant_empty : registry_invariant GetMySqlConnection.
Proof. intros name. simpl. rewrite lookup_empty. by intros [? ?]. Qed.

Lemma invariant_stored name db config f :
  registry_invariant f → registry_invariant (stored name db config f).
Proof.
  intros Hinv other. simpl. destruct (decide (name = other)) as [->|Hne].
  - rewrite !lookup_insert_eq. eauto.
  - rewrite !lookup_insert_ne by done. apply Hinv.
Qed.

Lemma invariant_removed name f :
  registry_invariant f → registry_invariant (removed name f).
Proof.
  intros Hinv other. simpl. destruct (decide (name = other)) as [->|Hne].
  - rewrite !lookup_delete_eq. by intros [? ?].
  - rewrite !lookup_delete_ne by done. apply Hinv.
Qed.

Create HintDb registry.
#[local] Hint Resolve invariant_empty invariant_stored invariant_removed : registry.

Lemma Init_invariant name config s :
  registry_invariant s.1 →
  registry_invariant (InitDataSourceConnection name config s).2.1.
Proof.
  intros Hinv. destruct (Init_registry name config s) as [-> | [_ [db ->]]];
    auto with registry.
Qed.

Lemma Close_invariant name s :
  registry_invariant s.1 → registry_invariant (CloseConnection name s).2.1.
Proof.
  intros Hinv. destruct (Close_registry name s) as [-> | [_ ->]];
    auto with registry.
Qed.

Lemma reconnect_invariant name config s :
  registry_invariant s.1 → registry_invariant (reconnect name config s).2.1.
Proof.
  intros Hinv.
  destruct (reconnect_registry name config s) as [-> | [_ [-> | [db ->]]]];
    auto with registry.
Qed.

Lemma GetDB_invariant name s :
  registry_invariant s.1 → registry_invariant (GetDB name s).2.1.
Proof.
  intros Hinv.
  destruct (GetDB_registry name s) as [-> | [_ (config & _ & [-> | [db ->]])]];
    auto with registry.
Qed.

Lemma exec_invariant (o : operation W) s :
  registry_invariant s.1 → registry_invariant (exec o s).1.
Proof.
  intros Hinv. destruct o; simpl.
  - by apply Init_invariant.
  - by apply GetDB_invariant.
  - by apply reconnect_invariant.
  - by apply Close_invariant.
  - rewrite CloseAll_registry. apply invariant_empty.
  - unfold PrintAllExistingDb_in. by rewrite collect_names_registry.
  - by rewrite GetDbConfig_eq.
  - done.
Qed.

(** C9. Every key of [connections] is a key of [configs]: this holds of
    the registry that [GetMySqlConnection] makes, every operation keeps
    it, and so it holds after every history of calls. *)
Theorem invariant_holds :
  registry_invariant GetMySqlConnection ∧
  (∀ (o : operation W) s,
     registry_invariant s.1 → registry_invariant (exec o s).1) ∧
  (∀ history s, reachable history s → registry_invariant s.1).
Proof.
  split_and!; [apply invariant_empty | apply exec_invariant |].
  intros history s Hreach.
  induction Hreach as [w | o history s _ IH _]; [apply invariant_empty|].
  by apply exec_invariant.
Qed.

(** ** Names that were never initialized *)

Lemma absent_stored name other db config f :
  other ≠ name → absent name f → absent name (stored other db config f).
Proof.
  intros Hne [Hc Hg]. split; simpl; by rewrite lookup_insert_ne.
Qed.

Lemma absent_removed name other f :
  absent name f → absent name (removed other f).
Proof.
  intros [Hc Hg]. split; simpl.
  - rewrite lookup_delete. by case_decide.
  - rewrite lookup_delete. by case_decide.
Qed.

Lemma absent_not_registered name other f :
  absent name f → is_Some (connections f !! other) → other ≠ name.
Proof. intros [Hc _] [db Hdb] ->. congruence. Qed.

(** An operation that does not initialize [name] leaves it absent. *)
Lemma exec_absent name (o : operation W) s :
  (∀ config, o ≠ Init name config) →
  absent name s.1 → absent name (exec o s).1.
Proof.
  intros Hnot Habs. destruct o as [other config|other|other config|other| | | |];
    simpl.
  - assert (other ≠ name) by (intros ->; by eapply Hnot).
    destruct (Init_registry other config s) as [-> | [_ [db ->]]];
      [done | by apply absent_stored].
  - destruct (GetDB_registry other s)
      as [-> | [Hreg (config & _ & [-> | [db ->]])]]; [done | |].
    + by apply absent_removed.
    + apply absent_stored; [by eapply absent_not_registered|].
      by apply absent_removed.
  - destruct (reconnect_registry other config s)
      as [-> | [Hreg [-> | [db ->]]]]; [done | |].
    + by apply absent_removed.
    + apply absent_stored; [by eapply absent_not_registered|].
      by apply absent_removed.
  - destruct (Close_registry other s) as [-> | [_ ->]];
      [done | by apply absent_removed].
  - by rewrite CloseAll_registry.
  - unfold PrintAllExistingDb_in. by rewrite collect_names_registry.
  - by rewrite GetDbConfig_eq.
  - done.
Qed.

Lemma never_initialized_absent name history s :
  reachable history s → never_initialized name history → absent name s.1.
Proof.
  intros Hreach. induction Hreach as [w | o history s _ IH _]; intros Hnever.
  { done. }
  apply exec_absent.
  - intros config ->. apply (Hnever config). apply list_elem_of_here.
  - apply IH. intros config Hin. apply (Hnever config).
    by apply list_elem_of_further.
Qed.

(** C8, amended. After [InitDataSourceConnection(name, config)] has
    returned no error on a name that [connections] did not have,
    [GetDbConfig(name)] returns [config]; for a name that no call has
    initialized, [GetDbConfig] returns [DBConfig{}]. *)
Theorem config_round_trip name config :
  (∀ s s', connections s.1 !! name = None →
     InitDataSourceConnection name config s = (None, s') →
     GetDbConfig name s' = (config, s')) ∧
  (∀ history s, reachable history s → never_initialized name history →
     GetDbConfig name s = (DBConfig_zero, s)).
Proof.
  split.
  - intros s s' Hnone Hi. rewrite GetDbConfig_eq.
    destruct (Init_outcome name config s)
      as [[[db Hdb] _] | [(_ & _ & e & w' & He) | (_ & db & w' & _ & He)]];
      [congruence | congruence |].
    rewrite He in Hi. inversion Hi; subst s'. simpl.
    by rewrite lookup_insert_eq.
  - intros history s Hreach Hnever. rewrite GetDbConfig_eq.
    destruct (never_initialized_absent name history s Hreach Hnever) as [_ ->].
    done.
Qed.

(** * Further properties of the methods *)

(** ** [GetDB] *)

Lemma unhealthy_probe_succeeds db s w' :
  probe_succeeds db s.2 w' → unhealthy db s = (false, (s.1, w')).
Proof.
  intros (sq & w1 & Hh & Hp). unfold unhealthy. unfold_monad.
  rewrite Hh. simpl. by rewrite Hp.
Qed.

(** X1. For a name that [connections] has and whose handle passes the
    probe, [GetDB] returns the stored handle and no error, and leaves the
    registry as it was. *)
Theorem get_healthy name db s w' :
  connections s.1 !! name = Some db →
  probe_succeeds db s.2 w' →
  GetDB name s = ((Some db, None), (s.1, w')).
Proof.
  intros Hdb Hprobe.
  pose proof (unhealthy_probe_succeeds db s w' Hprobe) as Hok.
  rewrite (GetDB_healthy name db s Hdb) by (by rewrite Hok).
  by rewrite Hok.
Qed.

(** After a close step that succeeded, a re-initialize step that returns
    no error has stored a handle under the name. *)
Lemma Init_after_close name config s s1 s2 :
  CloseConnection name s = (None, s1) →
  InitDataSourceConnection name config s1 = (None, s2) →
  ∃ db, connections s2.1 !! name = Some db ∧
        s2.1 = stored name db config (removed name s.1).
Proof.
  intros Hc Hi. pose proof (Close_ok_registry _ _ _ Hc) as Hs1.
  assert (connections s1.1 !! name = None) as Hgone.
  { rewrite Hs1. simpl. apply lookup_delete_eq. }
  destruct (Init_outcome name config s1)
    as [[[db Hdb] _] | [(_ & _ & e & w' & He) | (_ & db & w' & _ & He)]];
    [congruence | congruence |].
  rewrite He in Hi. inversion Hi; subst s2. simpl. exists db.
  rewrite lookup_insert_eq. by rewrite Hs1.
Qed.

(** X2. [GetDB] returns a handle or an error, never both and never
    neither; a handle it returns is the one [connections] holds under the
    name afterwards. *)
Theorem get_handle_xor_error name s :
  (∃ db, (GetDB name s).1 = (Some db, None) ∧
         connections (GetDB name s).2.1 !! name = Some db) ∨
  (∃ err, (GetDB name s).1 = (None, Some err)).
Proof.
  destruct (connections s.1 !! name) as [db|] eqn:Hdb;
    [|right; rewrite GetDB_absent by done; eauto].
  pose proof (unhealthy_registry db s) as Hreg.
  destruct (unhealthy db s) as [[] s0] eqn:Hbad; simpl in Hreg.
  2:{ left. rewrite (GetDB_healthy name db) by (by rewrite ?Hbad).
      rewrite Hbad. simpl. exists db. by rewrite Hreg. }
  destruct (configs s.1 !! name) as [config|] eqn:Hcfg.
  2:{ right. rewrite (GetDB_no_config name db) by (by rewrite ?Hbad). eauto. }
  rewrite (GetDB_reconnects name db config) by (by rewrite ?Hbad).
  rewrite Hbad. simpl.
  destruct (CloseConnection name s0) as [[err|] s1] eqn:Hc.
  { right. rewrite (reconnect_close_error _ _ _ _ _ Hc). eauto. }
  destruct (InitDataSourceConnection name config s1) as [[err|] s2] eqn:Hi.
  { right. rewrite (reconnect_init_error _ _ _ _ _ _ Hc Hi). eauto. }
  left. rewrite (reconnect_ok _ _ _ _ _ Hc Hi). simpl.
  destruct (Init_after_close _ _ _ _ _ Hc Hi) as (fresh & Hfresh & _).
  exists fresh. by rewrite Hfresh.
Qed.

(** X3. What an error of [GetDB] says about the registry: "does not exist"
    when the name has no connection; "no configuration" when it has a
    connection and no configuration, and then the registry is as it was;
    "failed to remove" with the registry as it was; "failed to reconnect"
    with the name in neither map. *)
Theorem get_error_kinds name s err :
  (GetDB name s).1.2 = Some err →
  (err = NotExist name ∧ connections s.1 !! name = None ∧
     (GetDB name s).2 = s) ∨
  (err = NoConfig name ∧ is_Some (connections s.1 !! name) ∧
     configs s.1 !! name = None ∧ (GetDB name s).2.1 = s.1) ∨
  (∃ cause, err = RemoveFailed name cause ∧ (GetDB name s).2.1 = s.1) ∨
  (∃ cause, err = ReconnectFailed name cause ∧ absent name (GetDB name s).2.1).
Proof.
  destruct (connections s.1 !! name) as [db|] eqn:Hdb.
  2:{ rewrite GetDB_absent by done. simpl. intros [= <-]. by left. }
  pose proof (unhealthy_registry db s) as Hreg.
  destruct (unhealthy db s) as [[] s0] eqn:Hbad; simpl in Hreg.
  2:{ rewrite (GetDB_healthy name db) by (by rewrite ?Hbad). done. }
  destruct (configs s.1 !! name) as [config|] eqn:Hcfg.
  2:{ rewrite (GetDB_no_config name db) by (by rewrite ?Hbad).
      rewrite Hbad. simpl. intros [= <-]. right; left. eauto. }
  rewrite (GetDB_reconnects name db config) by (by rewrite ?Hbad).
  rewrite Hbad. simpl.
  destruct (CloseConnection name s0) as [[cause|] s1] eqn:Hc.
  { rewrite (reconnect_close_error _ _ _ _ _ Hc). simpl. intros [= <-].
    right; right; left. exists cause. split; [done|].
    rewrite (Close_error_registry _ _ _ _ Hc). done. }
  destruct (InitDataSourceConnection name config s1) as [[cause|] s2] eqn:Hi.
  2:{ rewrite (reconnect_ok _ _ _ _ _ Hc Hi). done. }
  rewrite (reconnect_init_error _ _ _ _ _ _ Hc Hi). simpl. intros [= <-].
  right; right; right. exists cause. split; [done|].
  rewrite (Init_error_registry _ _ _ _ _ Hi), (Close_ok_registry _ _ _ Hc).
  split; simpl; apply lookup_delete_eq.
Qed.

(** ** [InitDataSourceConnection] and [CloseConnection] *)

(** X4. [InitDataSourceConnection] returns no error exactly when the name
    has a connection afterwards; when it returns an error the registry is
    as it was. *)
Theorem init_registers_iff name config s :
  ((InitDataSourceConnection name config s).1 = None ↔
     is_Some (connections (InitDataSourceConnection name config s).2.1 !! name)) ∧
  (is_Some (InitDataSourceConnection name config s).1 →
     (InitDataSourceConnection name config s).2.1 = s.1).
Proof.
  destruct (Init_outcome name config s)
    as [[Hsome He] | [(Hnone & _ & e & w' & He) | (_ & db & w' & _ & He)]];
    rewrite He; simpl.
  - split; [done|]. by intros [? ?].
  - rewrite Hnone. split; [|done]. split; [done | by intros [? ?]].
  - rewrite lookup_insert_eq. split; [by eauto|]. by intros [? ?].
Qed.

(** X5. After [InitDataSourceConnection] opened a handle for a name that
    had no connection, [GetDB] of that name, when the probe passes,
    returns the handle that was opened. *)
Theorem init_then_get name config s db w1 w2 :
  connections s.1 !! name = None →
  init_succeeds config s.2 db w1 →
  probe_succeeds db w1 w2 →
  (InitDataSourceConnection name config s).1 = None ∧
  (GetDB name (InitDataSourceConnection name config s).2).1 = (Some db, None) ∧
  (GetDB name (InitDataSourceConnection name config s).2).2.1 =
    stored name db config s.1.
Proof.
  intros Hnone Hinit Hprobe.
  rewrite (Init_fresh_succeeds name config s db w1 Hnone Hinit). simpl.
  pose proof (unhealthy_probe_succeeds db (stored name db config s.1, w1) w2 Hprobe)
    as Hok.
  rewrite (GetDB_healthy name db) by (by rewrite ?Hok; simpl; rewrite ?lookup_insert_eq).
  by rewrite Hok.
Qed.

(** X6. [CloseConnection] returns no error exactly when the name has a
    connection whose [db.DB()] and [Close] succeed; then the name is in
    neither map afterwards.  When it returns an error the registry is as
    it was. *)
Theorem close_outcome_iff name s :
  ((CloseConnection name s).1 = None ↔
     ∃ db w', connections s.1 !! name = Some db ∧ close_succeeds db s.2 w') ∧
  ((CloseConnection name s).1 = None → absent name (CloseConnection name s).2.1) ∧
  (is_Some (CloseConnection name s).1 → (CloseConnection name s).2.1 = s.1).
Proof.
  split_and!.
  - split.
    + unfold CloseConnection. unfold_monad.
      destruct (connections s.1 !! name) as [db|] eqn:Hdb; [|done].
      destruct (db_DB db s.2) as [[err|sq] w1] eqn:Hh; simpl; [done|].
      destruct (Close sq w1) as [[err|] w2] eqn:Hc; simpl; [done|].
      intros _. exists db, w2. split; [done|]. by exists sq, w1.
    + intros (db & w' & Hdb & Hclose).
      by rewrite (Close_succeeds name db s w' Hdb Hclose).
  - destruct (CloseConnection name s) as [[err|] s1] eqn:Hc; [done|].
    intros _. simpl. rewrite (Close_ok_registry _ _ _ Hc).
    split; simpl; apply lookup_delete_eq.
  - destruct (CloseConnection name s) as [[err|] s1] eqn:Hc;
      [| by intros [? ?]].
    intros _. by eapply Close_error_registry.
Qed.

Lemma removed_stored name db config f :
  absent name f → removed name (stored name db config f) = f.
Proof.
  intros [Hc Hg]. destruct f as [conns cfgs]. simpl in *.
  unfold delete_config, delete_connection, set_config, set_connection. simpl.
  by rewrite !delete_insert_eq, !delete_id.
Qed.

(** X7. Initializing a name that is in neither map and then closing it
    gives back the registry there was before the two calls. *)
Theorem init_close_round_trip name config s db w1 w2 :
  absent name s.1 →
  init_succeeds config s.2 db w1 →
  close_succeeds db w1 w2 →
  CloseConnection name (InitDataSourceConnection name config s).2 =
    (None, (s.1, w2)).
Proof.
  intros Habs Hinit Hclose.
  rewrite (Init_fresh_succeeds name config s db w1 (proj1 Habs) Hinit). simpl.
  rewrite (Close_succeeds name db (stored name db config s.1, w1) w2)
    by (simpl; by rewrite ?lookup_insert_eq).
  simpl. by rewrite removed_stored.
Qed.

(** X8. After [CloseConnection] returned no error, the name is unknown to
    every lookup: [GetDB] and a second [CloseConnection] return the "does
    not exist" error and [GetDbConfig] returns [DBConfig{}]. *)
Theorem close_then_lookup name s s' :
  CloseConnection name s = (None, s') →
  GetDB name s' = ((None, Some (NotExist name)), s') ∧
  CloseConnection name s' = (Some (NotExist name), s') ∧
  GetDbConfig name s' = (DBConfig_zero, s').
Proof.
  intros Hc. pose proof (Close_ok_registry _ _ _ Hc) as Hreg.
  assert (absent name s'.1) as [Hconn Hcfg].
  { rewrite Hreg. split; simpl; apply lookup_delete_eq. }
  split_and!.
  - by apply GetDB_absent.
  - by apply Close_absent.
  - rewrite GetDbConfig_eq. by rewrite Hcfg.
Qed.

(** ** Other names *)

Lemma same_elsewhere_refl name f : same_elsewhere name f f.
Proof. by intros other _. Qed.

Lemma same_elsewhere_stored name db config f0 f :
  same_elsewhere name f0 f → same_elsewhere name f0 (stored name db config f).
Proof.
  intros Hsame other Hne. simpl. rewrite !lookup_insert_ne by done.
  by apply Hsame.
Qed.

Lemma same_elsewhere_removed name f0 f :
  same_elsewhere name f0 f → same_elsewhere name f0 (removed name f).
Proof.
  intros Hsame other Hne. simpl. rewrite !lookup_delete_ne by done.
  by apply Hsame.
Qed.

#[local] Hint Resolve same_elsewhere_refl same_elsewhere_stored
  same_elsewhere_removed : registry.

(** X9. A method called with a name changes no entry of another name:
    this holds of [InitDataSourceConnection], [GetDB], [reconnect] and
    [CloseConnection], whatever the library answers. *)
Theorem methods_touch_only_name name config s :
  same_elsewhere name s.1 (InitDataSourceConnection name config s).2.1 ∧
  same_elsewhere name s.1 (GetDB name s).2.1 ∧
  same_elsewhere name s.1 (reconnect name config s).2.1 ∧
  same_elsewhere name s.1 (CloseConnection name s).2.1.
Proof.
  split_and!.
  - destruct (Init_registry name config s) as [-> | [_ [db ->]]];
      auto with registry.
  - destruct (GetDB_registry name s) as [-> | [_ (cfg & _ & [-> | [db ->]])]];
      auto with registry.
  - destruct (reconnect_registry name config s) as [-> | [_ [-> | [db ->]]]];
      auto with registry.
  - destruct (Close_registry name s) as [-> | [_ ->]]; auto with registry.
Qed.

(** ** [PrintAllExistingDb] and [GetDbConfig] *)

Lemma collect_names_sublist visited names s :
  ∃ more : list string,
    (collect_names visited names s).1 = (names ++ more)%list ∧
    more `sublist_of` visited.*1.
Proof.
  revert names s. induction visited as [|entry rest IH]; intros names s.
  { exists []. split; [by rewrite app_nil_r | done]. }
  simpl. unfold_monad.
  destruct (db_DB entry.2 s.2) as [[err|sq] w1]; simpl.
  - destruct (IH names (s.1, w1)) as (more & -> & Hsub).
    exists more. split; [done | by apply sublist_cons].
  - destruct (IH (names ++ [entry.1])%list (s.1, w1)) as (more & -> & Hsub).
    exists (entry.1 :: more). split; [by rewrite <- app_assoc|].
    by apply sublist_skip.
Qed.

(** X10. [PrintAllExistingDb] leaves the registry as it was, and the names
    it lists are names that have a connection, each listed once. *)
Theorem print_lists_registered visited s :
  visited ≡ₚ map_to_list (connections s.1) →
  (PrintAllExistingDb_in visited s).2.1 = s.1 ∧
  NoDup (PrintAllExistingDb_in visited s).1 ∧
  ∀ name, name ∈ (PrintAllExistingDb_in visited s).1 →
          is_Some (connections s.1 !! name).
Proof.
  intros Hperm. unfold PrintAllExistingDb_in.
  split; [apply collect_names_registry|].
  destruct (collect_names_sublist visited [] s) as (more & -> & Hsub).
  simpl. split.
  - eapply sublist_NoDup; [|exact Hsub]. rewrite Hperm.
    apply NoDup_fst_map_to_list.
  - intros name Hin. pose proof (elem_of_sublist _ _ _ Hin Hsub) as Hkey.
    apply list_elem_of_fmap in Hkey as ([k db] & -> & Hentry).
    rewrite Hperm in Hentry. apply elem_of_map_to_list in Hentry.
    simpl. eauto.
Qed.

Lemma collect_names_all visited names f w :
  (∀ entry, entry ∈ visited → ∃ sqlDB, db_DB entry.2 w = (inr sqlDB, w)) →
  collect_names visited names (f, w) = ((names ++ visited.*1)%list, (f, w)).
Proof.
  revert names. induction visited as [|entry rest IH]; intros names Hok.
  { simpl. by rewrite app_nil_r. }
  simpl. unfold_monad.
  destruct (Hok entry) as [sq ->]; [apply list_elem_of_here|]. simpl.
  rewrite IH.
  - by rewrite <- app_assoc.
  - intros e He. apply Hok. by apply list_elem_of_further.
Qed.

(** X11. When [db.DB()] gives the handle of every connection and leaves
    the library as it is, [PrintAllExistingDb] lists the names of all the
    entries, in the order of the loop, and changes nothing. *)
Theorem print_all_when_handles_ok visited s :
  (∀ entry, entry ∈ visited → ∃ sqlDB, db_DB entry.2 s.2 = (inr sqlDB, s.2)) →
  PrintAllExistingDb_in visited s = (visited.*1, s).
Proof.
  intros Hok. destruct s as [f w]. unfold PrintAllExistingDb_in.
  by rewrite collect_names_all.
Qed.

(** X12. [GetDbConfig] changes nothing and returns the stored
    configuration of a name that has one; it returns [DBConfig{}] exactly
    when the name has no configuration or has [DBConfig{}] stored, two
    cases that its result does not tell apart. *)
Theorem get_config_zero_iff name s :
  (GetDbConfig name s).2 = s ∧
  (∀ config, configs s.1 !! name = Some config →
     (GetDbConfig name s).1 = config) ∧
  ((GetDbConfig name s).1 = DBConfig_zero ↔
     configs s.1 !! name = None ∨ configs s.1 !! name = Some DBConfig_zero).
Proof.
  rewrite GetDbConfig_eq. simpl. split_and!; [done | by intros config -> |].
  destruct (configs s.1 !! name) as [config|]; simpl.
  - split; [intros ->; by right | by intros [? | [= ->]]].
  - split; [by left | done].
Qed.

(** ** The two maps have the same keys *)

Lemma dom_stored name db config f :
  dom (connections f) = dom (configs f) →
  dom (connections (stored name db config f)) =
    dom (configs (stored name db config f)).
Proof. intros Hdom. simpl. by rewrite !dom_insert_L, Hdom. Qed.

Lemma dom_removed name f :
  dom (connections f) = dom (configs f) →
  dom (connections (removed name f)) = dom (configs (removed name f)).
Proof. intros Hdom. simpl. by rewrite !dom_delete_L, Hdom. Qed.

#[local] Hint Resolve dom_stored dom_removed : registry.

Lemma exec_dom (o : operation W) s :
  dom (connections s.1) = dom (configs s.1) →
  dom (connections (exec o s).1) = dom (configs (exec o s).1).
Proof.
  intros Hdom. destruct o as [name config|name|name config|name| | | |]; simpl.
  - destruct (Init_registry name config s) as [-> | [_ [db ->]]];
      auto with registry.
  - destruct (GetDB_registry name s) as [-> | [_ (cfg & _ & [-> | [db ->]])]];
      auto with registry.
  - destruct (reconnect_registry name config s) as [-> | [_ [-> | [db ->]]]];
      auto with registry.
  - destruct (Close_registry name s) as [-> | [_ ->]]; auto with registry.
  - by rewrite CloseAll_registry.
  - unfold PrintAllExistingDb_in. by rewrite collect_names_registry.
  - by rewrite GetDbConfig_eq.
  - done.
Qed.

(** X13. After every history of calls the two maps have the same keys: a
    configuration is stored for a name exactly when a connection is. *)
Theorem domains_agree history s :
  reachable history s → dom (connections s.1) = dom (configs s.1).
Proof.
  intros Hreach. induction Hreach as [w | o history s _ IH _]; [done|].
  by apply exec_dom.
Qed.

(** ** The caller [initMySql] *)

(** X14. When the name "mysql" has no connection and opening fails,
    [initMySql] returns a nil handle and the "does not exist" error of
    [GetDB]: the error of the initialization does not reach its caller.
    The registry is as it was. *)
Theorem initMySql_hides_init_error getenv s :
  connections s.1 !! "mysql" = None →
  init_fails (mySqlConfig getenv) s.2 →
  ∃ w', initMySql getenv s = ((None, Some (NotExist "mysql")), (s.1, w')).
Proof.
  intros Hnone Hfail. unfold initMySql, bind.
  destruct (Init_fresh_fails "mysql" (mySqlConfig getenv) s Hnone Hfail)
    as (err & w' & ->).
  exists w'. by apply GetDB_absent.
Qed.

(** X15. When the name "mysql" has no connection, opening succeeds and the
    probe of the new handle passes, [initMySql] returns the handle that
    was opened and no error, and the registry holds it with the
    configuration of [initMySql]. *)
Theorem initMySql_connects getenv s db w1 w2 :
  connections s.1 !! "mysql" = None →
  init_succeeds (mySqlConfig getenv) s.2 db w1 →
  probe_succeeds db w1 w2 →
  initMySql getenv s =
    ((Some db, None), (stored "mysql" db (mySqlConfig getenv) s.1, w2)).
Proof.
  intros Hnone Hinit Hprobe. unfold initMySql, bind.
  rewrite (Init_fresh_succeeds "mysql" _ s db w1 Hnone Hinit).
  pose proof (unhealthy_probe_succeeds db
                (stored "mysql" db (mySqlConfig getenv) s.1, w1) w2 Hprobe) as Hok.
  rewrite (GetDB_healthy "mysql" db)
    by (by rewrite ?Hok; simpl; rewrite ?lookup_insert_eq).
  by rewrite Hok.
Qed.

(** ** The "no configuration" error *)

Lemma reachable_invariant history s :
  reachable history s → registry_invariant s.1.
Proof.
  intros Hreach. induction Hreach as [w | o history s _ IH _];
    [apply invariant_empty | by apply exec_invariant].
Qed.

Lemma reconnect_error_kinds name config s err :
  (reconnect name config s).1.2 = Some err →
  (∃ cause, err = RemoveFailed name cause) ∨
  (∃ cause, err = ReconnectFailed name cause).
Proof.
  destruct (CloseConnection name s) as [[cause|] s1] eqn:Hc.
  { rewrite (reconnect_close_error _ _ _ _ _ Hc). simpl. intros [= <-]. eauto. }
  destruct (InitDataSourceConnection name config s1) as [[cause|] s2] eqn:Hi.
  - rewrite (reconnect_init_error _ _ _ _ _ _ Hc Hi). simpl. intros [= <-]. eauto.
  - by rewrite (reconnect_ok _ _ _ _ _ Hc Hi).
Qed.

(** X18. After a history of calls, [GetDB] never returns the "no
    configuration found to reconnect" error: a name that has a connection
    has a configuration. *)
Theorem get_never_no_config history s name :
  reachable history s →
  (GetDB name s).1.2 ≠ Some (NoConfig name).
Proof.
  intros Hreach Herr.
  pose proof (reachable_invariant history s Hreach name) as Hinv.
  destruct (connections s.1 !! name) as [db|] eqn:Hdb;
    [|by rewrite GetDB_absent in Herr].
  destruct Hinv as [config Hcfg]; [by eauto|].
  destruct (unhealthy db s) as [[] s0] eqn:Hbad.
  - rewrite (GetDB_reconnects name db config) in Herr by (by rewrite ?Hbad).
    destruct (reconnect_error_kinds _ _ _ _ Herr) as [[? ?] | [? ?]]; done.
  - by rewrite (GetDB_healthy name db) in Herr by (by rewrite ?Hbad).
Qed.

End Properties.

(** * The methods on the example library *)

Section OnSim.

Import Sim.

Implicit Types (w : world) (s : state world).

(** One turn of the loop of [CloseAllConnections] keeps what is closed
    closed, and closes the handle of its entry when that can be done. *)
Lemma sim_close_entry entry s :
  no_pool (close_entry entry s).2.2 = no_pool s.2 ∧
  close_fails (close_entry entry s).2.2 = close_fails s.2 ∧
  closed s.2 ⊆ closed (close_entry entry s).2.2 ∧
  (entry.2 ∉ no_pool s.2 → entry.2 ∉ close_fails s.2 →
   entry.2 ∈ closed (close_entry entry s).2.2).
Proof.
  unfold close_entry, bind, call, ret. simpl. unfold pool.
  destruct (decide (entry.2 ∈ no_pool s.2)) as [Hno|Hno]; simpl; [done|].
  unfold close.
  destruct (decide (entry.2 ∈ close_fails s.2)) as [Hcf|Hcf]; simpl; [done|].
  split_and!; [done | done | set_solver | set_solver].
Qed.

Lemma sim_for_each_close visited s :
  no_pool (for_each close_entry visited s).2.2 = no_pool s.2 ∧
  close_fails (for_each close_entry visited s).2.2 = close_fails s.2 ∧
  closed s.2 ⊆ closed (for_each close_entry visited s).2.2 ∧
  (∀ entry, entry ∈ visited →
     entry.2 ∉ no_pool s.2 → entry.2 ∉ close_fails s.2 →
     entry.2 ∈ closed (for_each close_entry visited s).2.2).
Proof.
  revert s. induction visited as [|entry rest IH]; intros s.
  { simpl. split_and!; [done | done | done |]. by intros e ?%elem_of_nil. }
  simpl. unfold bind.
  destruct (sim_close_entry entry s) as (Hno & Hcf & Hmono & Hthis).
  destruct (close_entry entry s) as [[] s1]. simpl in *.
  destruct (IH s1) as (Hno' & Hcf' & Hmono' & Hrest).
  split_and!; [congruence | congruence | by etrans |].
  intros e [-> | Hin]%elem_of_cons Hp Hc.
  - apply Hmono'. by apply Hthis.
  - apply Hrest; [done | by rewrite Hno | by rewrite Hcf].
Qed.

(** X16. [CloseAllConnections] goes on after a failure: on the example
    library, every visited handle that has a [*sql.DB] and can be closed
    is closed afterwards, whatever happened to the entries visited before
    it. *)
Theorem close_all_closes_every_handle visited s name h :
  (name, h) ∈ visited →
  h ∉ no_pool s.2 →
  h ∉ close_fails s.2 →
  h ∈ closed (CloseAllConnections_in visited s).2.2.
Proof.
  intros Hin Hp Hc. unfold CloseAllConnections_in, bind, modify_reg, ret.
  destruct (sim_for_each_close visited s) as (_ & _ & _ & Hall).
  specialize (Hall (name, h) Hin Hp Hc).
  by destruct (for_each close_entry visited s) as [[] s1].
Qed.

Lemma limits_of_set_limits h l w : limits_of (set_limits h l w) h = l.
Proof. unfold limits_of, set_limits. simpl. by rewrite lookup_insert_eq. Qed.

Lemma set_limits_twice h l l' w :
  set_limits h l' (set_limits h l w) = set_limits h l' w.
Proof. unfold set_limits. simpl. by rewrite insert_insert_eq. Qed.

(** The four setters of [InitDataSourceConnection], one after the other,
    leave the four values of the configuration as the limits of the
    handle. *)
Lemma sim_pool_settings h config w :
  pool_settings h config w =
    set_limits h (MaxOpen config, MaxIdle config, Lifetime config, IdleTime config) w.
Proof.
  unfold pool_settings. simpl.
  destruct (limits_of w h) as [[[a b] c] d].
  rewrite limits_of_set_limits, set_limits_twice.
  rewrite limits_of_set_limits, set_limits_twice.
  by rewrite limits_of_set_limits, set_limits_twice.
Qed.


End OnSim.

(** * The properties on the example library *)

Section Examples.

Import Sim.

(** The test [TestReconnect] of the package: the handle is closed behind
    the registry, and the next [GetDB] opens a new one. *)
Lemma get_reconnects_witness :
  (GetDB "test_db" closed_behind).1 = (Some 1, None).
Proof.
  erewrite (get_reconnects "test_db" 0 testConfig closed_behind).
  - reflexivity.
  - reflexivity.
  - reflexivity.
  - eapply probe_no_ping; reflexivity.
  - eexists _, _. split; reflexivity.
  - eexists _, _, _. split_and!; reflexivity.
Defined.

(** C1 as stated fails: the registry holds an initialized name with its
    configuration, the probe fails because the server is down, and [GetDB]
    returns a nil handle and an error; the name is gone afterwards. *)
Lemma get_fails_when_server_down :
  (InitDataSourceConnection "test_db" testConfig
     (GetMySqlConnection, fresh_world)).1 = None ∧
  connections down.1 !! "test_db" = Some 0 ∧
  configs down.1 !! "test_db" = Some testConfig ∧
  probe_fails 0 down.2 down.2 ∧
  (GetDB "test_db" down).1 =
    (None,
     Some (ReconnectFailed "test_db"
             (InitOpenFailed "test_db"
                (External "dial tcp: connection refused")))) ∧
  connections (GetDB "test_db" down).2.1 !! "test_db" = None.
Proof.
  split_and!; try reflexivity.
  eapply probe_no_ping; reflexivity.
Qed.

(** When [db.DB()] fails in the probe and fails again in
    [CloseConnection], [GetDB] returns the error of the close step and the
    name keeps its entries. *)
Example get_fails_without_handle :
  probe_fails 0 no_handle.2 no_handle.2 ∧
  GetDB "test_db" no_handle =
    ((None,
      Some (RemoveFailed "test_db"
              (CloseHandleFailed "test_db" (External "invalid db")))),
     no_handle).
Proof. split; [eapply probe_no_handle|]; reflexivity. Qed.

Lemma init_idempotent_witness :
  (InitDataSourceConnection "test_db" otherConfig initialized).1 = None ∧
  entries_for "test_db"
    (InitDataSourceConnection "test_db" otherConfig initialized).2.1 =
    [("test_db", 0)] ∧
  size (connections
          (InitDataSourceConnection "test_db" otherConfig initialized).2.1) =
    size (connections initialized.1).
Proof.
  apply (init_idempotent "test_db" otherConfig initialized 0). reflexivity.
Defined.

Lemma init_failure_leaves_registry_witness :
  is_Some (InitDataSourceConnection "test_db" testConfig
             (GetMySqlConnection, server_down fresh_world)).1 ∧
  (InitDataSourceConnection "test_db" testConfig
     (GetMySqlConnection, server_down fresh_world)).2.1 = GetMySqlConnection.
Proof.
  apply (init_failure_leaves_registry "test_db" testConfig
           (GetMySqlConnection, server_down fresh_world)).
  - reflexivity.
  - eapply open_fails. reflexivity.
Defined.

Lemma duplicate_init_discards_config_witness :
  (InitDataSourceConnection "test_db" otherConfig initialized).2 = initialized ∧
  configs (InitDataSourceConnection "test_db" otherConfig initialized).2.1
    !! "test_db" = Some testConfig.
Proof.
  destruct (duplicate_init_discards_config "test_db" otherConfig initialized 0)
    as (Hsame & _ & Hcfg & _); [reflexivity|].
  split; [exact Hsame|]. rewrite Hcfg. reflexivity.
Defined.

(** The test [GetNonExistentDB] of the package. *)
Lemma not_found_contract_witness :
  GetDB "non_existent_db" initialized =
    ((None, Some (NotExist "non_existent_db")), initialized) ∧
  CloseConnection "non_existent_db" initialized =
    (Some (NotExist "non_existent_db"), initialized).
Proof. apply (not_found_contract "non_existent_db" initialized). reflexivity. Defined.

Lemma get_without_config_witness :
  GetDB "test_db" without_config =
    ((None, Some (NoConfig "test_db")), without_config).
Proof.
  apply (get_without_config "test_db" 0 without_config without_config.2).
  - reflexivity.
  - eapply probe_no_ping; reflexivity.
  - reflexivity.
Defined.

(** C6 as stated fails: the close step of [reconnect] returns an error,
    [GetDB] returns it, and the name is still in both maps. *)
Lemma close_failure_keeps_name :
  (CloseConnection "test_db" stuck).1 =
    Some (CloseFailed "test_db" (External "close failed")) ∧
  (reconnect "test_db" testConfig stuck).1 =
    (None,
     Some (RemoveFailed "test_db"
             (CloseFailed "test_db" (External "close failed")))) ∧
  GetDB "test_db" stuck = reconnect "test_db" testConfig stuck ∧
  connections (reconnect "test_db" testConfig stuck).2.1 !! "test_db" = Some 0 ∧
  configs (reconnect "test_db" testConfig stuck).2.1 !! "test_db" =
    Some testConfig.
Proof. split_and!; reflexivity. Qed.

Lemma reconnect_failure_witness :
  (GetDB "test_db" stuck).1 =
    (None,
     Some (RemoveFailed "test_db"
             (CloseFailed "test_db" (External "close failed")))) ∧
  (GetDB "test_db" stuck).2.1 = stuck.1 ∧
  (GetDB "test_db" down).1 =
    (None,
     Some (ReconnectFailed "test_db"
             (InitOpenFailed "test_db"
                (External "dial tcp: connection refused")))) ∧
  connections (GetDB "test_db" down).2.1 !! "test_db" = None ∧
  configs (GetDB "test_db" down).2.1 !! "test_db" = None.
Proof.
  destruct (reconnect_failure "test_db" testConfig stuck) as (Hget & Hclose & _).
  destruct (reconnect_failure "test_db" testConfig down) as (Hget' & _ & Hinit).
  rewrite (Hget 0 stuck), (Hget' 0 down) by reflexivity.
  destruct (Hclose (CloseFailed "test_db" (External "close failed")) stuck)
    as [-> Hsame]; [reflexivity|].
  destruct (Hinit (CloseConnection "test_db" down).2
              (InitOpenFailed "test_db" (External "dial tcp: connection refused"))
              (CloseConnection "test_db" down).2)
    as (-> & Hconn & Hcfg); [reflexivity | reflexivity |].
  split_and!; [reflexivity | reflexivity | reflexivity | exact Hconn | exact Hcfg].
Defined.

(** [CloseAllConnections] on a registry whose handle gives an error when
    closed. *)
Lemma close_all_drains_witness :
  connections (CloseAllConnections_in [("test_db", 0)] stuck).2.1 = ∅ ∧
  configs (CloseAllConnections_in [("test_db", 0)] stuck).2.1 = ∅ ∧
  (GetDB "test_db" (CloseAllConnections_in [("test_db", 0)] stuck).2).1 =
    (None, Some (NotExist "test_db")) ∧
  (PrintAllExistingDb_in []
     (CloseAllConnections_in [("test_db", 0)] stuck).2).1 = [].
Proof.
  destruct (close_all_drains [("test_db", 0)] stuck)
    as (Hconn & Hcfg & Hget & Hprint); [reflexivity|].
  split_and!; [exact Hconn | exact Hcfg | |].
  - rewrite (Hget "test_db"). reflexivity.
  - rewrite (Hprint []); [reflexivity|]. rewrite Hconn. reflexivity.
Defined.

(** C8 as stated fails: the second [InitDataSourceConnection] returns no
    error, and [GetDbConfig] still returns the first configuration. *)
Lemma second_init_keeps_first_config :
  (InitDataSourceConnection "test_db" otherConfig initialized).1 = None ∧
  (GetDbConfig "test_db"
     (InitDataSourceConnection "test_db" otherConfig initialized).2).1 =
    testConfig ∧
  testConfig ≠ otherConfig.
Proof. split_and!; [reflexivity | reflexivity | discriminate]. Qed.

Lemma example_history_reachable :
  reachable example_history
    (exec (CloseOne "test_db")
       (exec (Outside (server_down initialized.2))
          (exec (Init "test_db" testConfig) (GetMySqlConnection, fresh_world)))).
Proof. repeat (apply reachable_step; [|exact I]). apply reachable_start. Defined.

Lemma config_round_trip_witness :
  GetDbConfig "test_db" initialized = (testConfig, initialized) ∧
  (GetDbConfig "another_db"
     (exec (CloseOne "test_db")
        (exec (Outside (server_down initialized.2))
           (exec (Init "test_db" testConfig)
              (GetMySqlConnection, fresh_world))))).1 = DBConfig_zero.
Proof.
  split.
  - apply (proj1 (config_round_trip "test_db" testConfig)
             (GetMySqlConnection, fresh_world) initialized); reflexivity.
  - rewrite (proj2 (config_round_trip "another_db" testConfig) example_history);
      [reflexivity | apply example_history_reachable |].
    intros config Hin. unfold example_history in Hin.
    repeat (apply elem_of_cons in Hin as [Hin|Hin]; [discriminate Hin|]).
    by apply elem_of_nil in Hin.
Defined.

Lemma invariant_holds_witness :
  registry_invariant
    (exec (CloseOne "test_db")
       (exec (Outside (server_down initialized.2))
          (exec (Init "test_db" testConfig)
             (GetMySqlConnection, fresh_world)))).1.
Proof.
  apply (proj2 (proj2 invariant_holds) example_history).
  apply example_history_reachable.
Defined.

(** ** The further properties *)

Lemma get_healthy_witness :
  GetDB "test_db" initialized = ((Some 0, None), initialized).
Proof.
  apply (get_healthy "test_db" 0 initialized initialized.2).
  - reflexivity.
  - exists 0, initialized.2. split; reflexivity.
Defined.

Lemma get_error_kinds_witness : absent "test_db" (GetDB "test_db" down).2.1.
Proof.
  destruct (get_error_kinds "test_db" down
              (ReconnectFailed "test_db"
                 (InitOpenFailed "test_db"
                    (External "dial tcp: connection refused"))))
    as [(H & _) | [(H & _) | [(c & H & _) | (c & _ & Habs)]]];
    [reflexivity | discriminate H | discriminate H | discriminate H | exact Habs].
Defined.

Lemma init_then_get_witness :
  (InitDataSourceConnection "test_db" testConfig
     (GetMySqlConnection, fresh_world)).1 = None ∧
  (GetDB "test_db"
     (InitDataSourceConnection "test_db" testConfig
        (GetMySqlConnection, fresh_world)).2).1 = (Some 0, None) ∧
  (GetDB "test_db"
     (InitDataSourceConnection "test_db" testConfig
        (GetMySqlConnection, fresh_world)).2).2.1 =
    set_config "test_db" testConfig
      (set_connection "test_db" 0 GetMySqlConnection).
Proof.
  eapply (init_then_get "test_db" testConfig (GetMySqlConnection, fresh_world) 0).
  - reflexivity.
  - eexists _, _, _. split_and!; reflexivity.
  - eexists _, _. split; reflexivity.
Defined.

Lemma init_close_round_trip_witness :
  (CloseConnection "test_db"
     (InitDataSourceConnection "test_db" testConfig
        (GetMySqlConnection, fresh_world)).2).2.1 = GetMySqlConnection.
Proof.
  erewrite (init_close_round_trip "test_db" testConfig
              (GetMySqlConnection, fresh_world) 0).
  - reflexivity.
  - split; reflexivity.
  - eexists _, _, _. split_and!; reflexivity.
  - eexists _, _. split; reflexivity.
Defined.

Lemma close_then_lookup_witness :
  GetDB "test_db" (CloseConnection "test_db" initialized).2 =
    ((None, Some (NotExist "test_db")), (CloseConnection "test_db" initialized).2) ∧
  CloseConnection "test_db" (CloseConnection "test_db" initialized).2 =
    (Some (NotExist "test_db"), (CloseConnection "test_db" initialized).2) ∧
  GetDbConfig "test_db" (CloseConnection "test_db" initialized).2 =
    (DBConfig_zero, (CloseConnection "test_db" initialized).2).
Proof.
  apply (close_then_lookup "test_db" initialized). reflexivity.
Defined.

Lemma print_lists_registered_witness :
  (PrintAllExistingDb_in [("test_db", 0)] initialized).2.1 = initialized.1 ∧
  NoDup (PrintAllExistingDb_in [("test_db", 0)] initialized).1 ∧
  ∀ name, name ∈ (PrintAllExistingDb_in [("test_db", 0)] initialized).1 →
          is_Some (connections initialized.1 !! name).
Proof.
  apply (print_lists_registered [("test_db", 0)] initialized). reflexivity.
Defined.

Lemma print_all_when_handles_ok_witness :
  PrintAllExistingDb_in [("other_db", 1); ("test_db", 0)] two_connections =
    (["other_db"; "test_db"], two_connections).
Proof.
  apply (print_all_when_handles_ok [("other_db", 1); ("test_db", 0)]
           two_connections).
  intros entry Hin.
  apply elem_of_cons in Hin as [-> | Hin]; [eexists; reflexivity|].
  apply elem_of_cons in Hin as [-> | Hin]; [eexists; reflexivity|].
  by apply elem_of_nil in Hin.
Defined.

Lemma domains_agree_witness :
  dom (connections
         (exec (CloseOne "test_db")
            (exec (Outside (server_down initialized.2))
               (exec (Init "test_db" testConfig)
                  (GetMySqlConnection, fresh_world)))).1) =
  dom (configs
         (exec (CloseOne "test_db")
            (exec (Outside (server_down initialized.2))
               (exec (Init "test_db" testConfig)
                  (GetMySqlConnection, fresh_world)))).1).
Proof.
  apply (domains_agree example_history). apply example_history_reachable.
Defined.

(** The environment variable is not set and no server answers. *)
Lemma initMySql_hides_init_error_witness :
  ∃ w', initMySql "" (GetMySqlConnection, server_down fresh_world) =
          ((None, Some (NotExist "mysql")), (GetMySqlConnection, w')).
Proof.
  apply (initMySql_hides_init_error "" (GetMySqlConnection, server_down fresh_world)).
  - reflexivity.
  - eapply open_fails. reflexivity.
Defined.

Lemma initMySql_connects_witness :
  (initMySql "user:password@tcp(localhost:3306)/dbname"
     (GetMySqlConnection, fresh_world)).1 = (Some 0, None).
Proof.
  erewrite (initMySql_connects _ (GetMySqlConnection, fresh_world) 0).
  - reflexivity.
  - reflexivity.
  - eexists _, _, _. split_and!; reflexivity.
  - eexists _, _. split; reflexivity.
Defined.

Lemma close_all_closes_every_handle_witness :
  1 ∈ closed
        (CloseAllConnections_in [("test_db", 0); ("other_db", 1)]
           first_stuck).2.2.
Proof.
  apply (close_all_closes_every_handle
           [("test_db", 0); ("other_db", 1)] first_stuck "other_db" 1).
  - apply list_elem_of_further, list_elem_of_here.
  - apply not_elem_of_empty.
  - intros Hin. simpl in Hin. apply elem_of_singleton in Hin. discriminate Hin.
Defined.


Lemma get_never_no_config_witness :
  (GetDB "test_db"
     (exec (CloseOne "test_db")
        (exec (Outside (server_down initialized.2))
           (exec (Init "test_db" testConfig)
              (GetMySqlConnection, fresh_world))))).1.2 ≠
    Some (NoConfig "test_db").
Proof.
  apply (get_never_no_config example_history). apply example_history_reachable.
Defined.

End Examples.
